(** * Geoplot: a shallow embedding of [acplotoo/geoplot.py]

    The [Geoplot] facade validates its arguments, appends tagged pending
    actions [[kind, executed, payload]] to [self._scheduled] and calls the
    base class's scheduling hook.  Python's exceptions are modelled by a
    state-and-exception monad in which the state reached before a [raise]
    survives, as attribute assignments do in Python.  Python list objects
    that the code stores by reference ([self._data_xlim = xlim]) live in a
    heap, so that in-place element assignment is seen through every alias.
    Floats are reals; numpy's [0/0] is the value [NaN] of [flt]. *)

From Stdlib Require Import String List Reals Lra Lia Bool.
Import ListNotations.

Open Scope R_scope.
Open Scope string_scope.
Open Scope list_scope.

(** ** Values *)

(** A numpy float: a finite real, an infinity or NaN. *)
Inductive flt : Type :=
| Fin (r : R)
| PInf
| NInf
| NaN.

(** Addresses of Python list objects. *)
Definition loc := nat.

#[local] Set Warnings "-register-all".

(** The Python values the module passes around. *)
Inductive PyVal : Type :=
| VNone
| VBool (b : bool)
| VNum (r : R)
| VStr (s : string)
| VArr (a : list flt)
| VList (l : loc)
| VDict (d : list (string * PyVal)).

(** A keyword dictionary ([**kwargs]); keys are unique, in insertion order. *)
Definition dict := list (string * PyVal).

Fixpoint dict_get (d : dict) (k : string) : option PyVal :=
  match d with
  | [] => None
  | (k', v) :: t => if String.eqb k k' then Some v else dict_get t k
  end.

(** [k in d] *)
Definition dict_mem (d : dict) (k : string) : bool :=
  match dict_get d k with Some _ => true | None => false end.

(** [d[k] = v]: an existing key keeps its position, a new one goes last. *)
Fixpoint dict_set (d : dict) (k : string) (v : PyVal) : dict :=
  match d with
  | [] => [(k, v)]
  | (k', v') :: t =>
      if String.eqb k k' then (k, v) :: t else (k', v') :: dict_set t k v
  end.

(** [{**a, **b}] *)
Definition dict_merge (a b : dict) : dict :=
  fold_left (fun acc kv => dict_set acc (fst kv) (snd kv)) b a.

(** ** Plot state *)

(** A pending action [[kind, executed, payload]]. *)
Record action : Type := mkAction {
  a_kind : string;
  a_executed : bool;
  a_payload : list PyVal
}.

(** Observable effects, in order: warnings and invocations of the
    scheduling hook (with the pending list the hook sees). *)
Inductive event : Type :=
| EWarn (msg : string)
| ECallback (sched : list action).

Inductive exn : Type :=
| ValueError
| RuntimeError
| NotImplementedError
| IndexError
| TypeError.

Record state : Type := mkState {
  gshhg_path : option string;
  water_color : PyVal;
  land_color : PyVal;
  scheduled : list action;
  grid_on : bool;
  grid_constant : R;
  grid_kwargs_base : dict;
  grid_kwargs : dict;
  grid_anchor : R * R;
  update_grid : bool;
  data_xlim : option loc;
  data_ylim : option loc;
  heap : loc -> list R;
  dirty : bool;
  log : list event
}.

(** ** A state and exception monad *)

Inductive result (A : Type) : Type :=
| Ok (a : A)
| Exc (e : exn).
Arguments Ok {A} a.
Arguments Exc {A} e.

Definition M (A : Type) : Type := state -> result A * state.

Definition ret {A} (a : A) : M A := fun st => (Ok a, st).
Definition raise {A} (e : exn) : M A := fun st => (Exc e, st).
Definition bind {A B} (c : M A) (k : A -> M B) : M B :=
  fun st => match c st with
            | (Ok a, st') => k a st'
            | (Exc e, st') => (Exc e, st')
            end.
Definition get : M state := fun st => (Ok st, st).
Definition modify (f : state -> state) : M unit := fun st => (Ok tt, f st).

Notation "x <- c ;; k" := (bind c (fun x => k))
  (at level 61, c at next level, right associativity).
Notation "c ;;; k" := (bind c (fun _ => k))
  (at level 61, right associativity).

(** ** Field updates *)

Definition with_colors (w l : PyVal) (st : state) : state :=
  mkState st.(gshhg_path) w l st.(scheduled) st.(grid_on) st.(grid_constant)
    st.(grid_kwargs_base) st.(grid_kwargs) st.(grid_anchor) st.(update_grid)
    st.(data_xlim) st.(data_ylim) st.(heap) st.(dirty) st.(log).

Definition with_scheduled (s : list action) (st : state) : state :=
  mkState st.(gshhg_path) st.(water_color) st.(land_color) s st.(grid_on)
    st.(grid_constant) st.(grid_kwargs_base) st.(grid_kwargs) st.(grid_anchor)
    st.(update_grid) st.(data_xlim) st.(data_ylim) st.(heap) st.(dirty) st.(log).

Definition with_grid (on : bool) (c : R) (kw : dict) (anchor : R * R)
    (upd : bool) (st : state) : state :=
  mkState st.(gshhg_path) st.(water_color) st.(land_color) st.(scheduled)
    on c st.(grid_kwargs_base) kw anchor upd
    st.(data_xlim) st.(data_ylim) st.(heap) st.(dirty) st.(log).

Definition with_data_lims (dx dy : option loc) (st : state) : state :=
  mkState st.(gshhg_path) st.(water_color) st.(land_color) st.(scheduled)
    st.(grid_on) st.(grid_constant) st.(grid_kwargs_base) st.(grid_kwargs)
    st.(grid_anchor) st.(update_grid) dx dy st.(heap) st.(dirty) st.(log).

Definition with_heap (h : loc -> list R) (st : state) : state :=
  mkState st.(gshhg_path) st.(water_color) st.(land_color) st.(scheduled)
    st.(grid_on) st.(grid_constant) st.(grid_kwargs_base) st.(grid_kwargs)
    st.(grid_anchor) st.(update_grid) st.(data_xlim) st.(data_ylim) h
    st.(dirty) st.(log).

Definition with_log (d : bool) (l : list event) (st : state) : state :=
  mkState st.(gshhg_path) st.(water_color) st.(land_color) st.(scheduled)
    st.(grid_on) st.(grid_constant) st.(grid_kwargs_base) st.(grid_kwargs)
    st.(grid_anchor) st.(update_grid) st.(data_xlim) st.(data_ylim) st.(heap)
    d l.

(** ** The base class's hooks *)

(** Modelled from the spec: [GeoplotBase._schedule_callback], whose code is
    not in the repository's files; the spec calls it "an immediate,
    non-deferred hook" that "marks the plot dirty".  The invocation is
    recorded in the log together with the pending list it sees. *)
Definition _schedule_callback : M unit :=
  modify (fun st => with_log true (st.(log) ++ [ECallback st.(scheduled)]) st).

(** [warnings.warn(msg)]: a non-fatal warning. *)
Definition warn (msg : string) : M unit :=
  modify (fun st => with_log st.(dirty) (st.(log) ++ [EWarn msg]) st).

(** [self._scheduled += [[kind, False, payload]]] *)
Definition schedule (kind : string) (payload : list PyVal) : M unit :=
  modify (fun st =>
    with_scheduled (st.(scheduled) ++ [mkAction kind false payload]) st).

(** ** Geoplot methods *)

Definition coastline (level : PyVal) (water_color_arg land_color_arg : PyVal)
    (zorder : PyVal) (kwargs : dict) : M unit :=
  st <- get ;;
  match st.(gshhg_path) with
  | None => raise RuntimeError
  | Some _ =>
      modify (fun st =>
        with_colors
          (match water_color_arg with VNone => st.(water_color) | c => c end)
          st.(land_color) st) ;;;
      modify (fun st =>
        with_colors st.(water_color)
          (match land_color_arg with VNone => st.(land_color) | c => c end) st) ;;;
      schedule "coastline" [level; zorder; VDict kwargs] ;;;
      _schedule_callback
  end.

Definition grid (on : bool) (grid_constant_arg : R) (anchor_lon anchor_lat : R)
    (kwargs : dict) : M unit :=
  modify (fun st =>
    let kw := dict_merge st.(grid_kwargs_base) kwargs in
    let kw := if negb (dict_mem kwargs "linewidth")
              then dict_set kw "linewidth" (VNum (1/2)) else kw in
    with_grid on grid_constant_arg kw (anchor_lon, anchor_lat) true st) ;;;
  _schedule_callback.

Definition scatter (lon lat : PyVal) (kwargs : dict) : M unit :=
  schedule "scatter" [lon; lat; VDict kwargs] ;;;
  _schedule_callback.

Definition quiver (lon lat u v c : PyVal) (kwargs : dict) : M unit :=
  schedule "quiver" [lon; lat; u; v; c; VDict kwargs] ;;;
  _schedule_callback.

Definition streamplot_projected (x y u v : PyVal) (kwargs : dict) : M unit :=
  schedule "streamplot" [x; y; u; v; VDict kwargs] ;;;
  _schedule_callback.

Definition streamplot (lon lat u v : PyVal) (kwargs : dict) : M unit :=
  raise NotImplementedError.

(** ** Python lists in the heap *)

(** [lst[i]] *)
Definition getitem (l : loc) (i : nat) : M R :=
  st <- get ;;
  match nth_error (st.(heap) l) i with
  | Some r => ret r
  | None => raise IndexError
  end.

Fixpoint replace_nth (xs : list R) (i : nat) (v : R) : list R :=
  match xs, i with
  | [], _ => []
  | _ :: t, O => v :: t
  | x :: t, S i' => x :: replace_nth t i' v
  end.

Definition heap_upd (h : loc -> list R) (l : loc) (xs : list R) : loc -> list R :=
  fun l' => if Nat.eqb l l' then xs else h l'.

(** [lst[i] = v]: in place, so every alias of [lst] sees it. *)
Definition setitem (l : loc) (i : nat) (v : R) : M unit :=
  st <- get ;;
  if Nat.ltb i (length (st.(heap) l))
  then modify (fun st =>
         with_heap (heap_upd st.(heap) l (replace_nth (st.(heap) l) i v)) st)
  else raise IndexError.

(** [a < b] on Python floats *)
Definition rlt (a b : R) : bool := if Rlt_dec a b then true else false.

(** The [else] branch of the data-limit check in [imshow_projected]:
    [if lim[0] < d[0]: d[0] = lim[0]] and [if lim[1] > d[1]: d[1] = lim[1]]. *)
Definition widen (d lim : loc) : M unit :=
  a0 <- getitem lim 0 ;;
  d0 <- getitem d 0 ;;
  (if rlt a0 d0 then a <- getitem lim 0 ;; setitem d 0 a else ret tt) ;;;
  a1 <- getitem lim 1 ;;
  d1 <- getitem d 1 ;;
  (if rlt d1 a1 then a <- getitem lim 1 ;; setitem d 1 a else ret tt).

Definition imshow_projected (z : PyVal) (xlim ylim : loc) (kwargs : dict) : M unit :=
  st <- get ;;
  match st.(data_xlim) with
  | None => modify (fun st => with_data_lims (Some xlim) st.(data_ylim) st)
  | Some d => widen d xlim
  end ;;;
  st <- get ;;
  match st.(data_ylim) with
  | None => modify (fun st => with_data_lims st.(data_xlim) (Some ylim) st)
  | Some d => widen d ylim
  end ;;;
  schedule "imshow" [z; VList xlim; VList ylim; VDict kwargs] ;;;
  _schedule_callback.

(** ** numpy arithmetic on one-dimensional arrays *)

(** An elementwise binary operation with numpy's broadcasting of
    one-dimensional shapes; incompatible shapes raise [ValueError]. *)
Definition broadcast (f : R -> R -> R) (a b : list R) : option (list R) :=
  if Nat.eqb (length a) (length b)
  then Some (map (fun p => f (fst p) (snd p)) (combine a b))
  else match a, b with
       | [a0], _ => Some (map (f a0) b)
       | _, [b0] => Some (map (fun x => f x b0) a)
       | _, _ => None
       end.

(** [arr.min()] and [arr.max()]; an empty array raises [ValueError]. *)
Definition amin (a : list R) : M R :=
  match a with
  | [] => raise ValueError
  | x :: t => ret (fold_left Rmin t x)
  end.

Definition amax (a : list R) : M R :=
  match a with
  | [] => raise ValueError
  | x :: t => ret (fold_left Rmax t x)
  end.

(** IEEE division of a finite numerator by a finite denominator. *)
Definition fdiv (n d : R) : flt :=
  if Req_EM_T d 0 then
    if Req_EM_T n 0 then NaN else if Rlt_dec 0 n then PInf else NInf
  else Fin (n / d).

Definition deg2rad (a : R) : R := a * PI / 180.

Definition is_none (v : PyVal) : bool :=
  match v with VNone => true | _ => false end.

Definition color_warning : string :=
  "Keyword 'color' passed to streamplot is being overridden.".

(** The first guard of [tensorfield_symmetric_2d]: not exactly one of the
    pairs [(lon,lat)] and [(x,y)] is given. *)
Definition coord_pairs_invalid (lon lat x y : PyVal) : bool :=
  Bool.eqb (is_none lon) (is_none x)
  || negb (Bool.eqb (is_none lon) (is_none lat))
  || negb (Bool.eqb (is_none x) (is_none y)).

(** [u = np.sin(np.deg2rad(angle))], [v = np.cos(np.deg2rad(angle))] *)
Definition direction (angle : list R) : list flt * list flt :=
  (map (fun a => Fin (sin (deg2rad a))) angle,
   map (fun a => Fin (cos (deg2rad a))) angle).

(** [linewidth * (width - width.min())/(width.max() - width.min())] *)
Definition normalized_width (linewidth : R) (width : list R) : M (list flt) :=
  mn <- amin width ;;
  mx <- amax width ;;
  ret (map (fun w => fdiv (linewidth * (w - mn)) (mx - mn)) width).

(** A call [f(p1, ..., pn, **d)] of a method [f(self, p1, ..., pn, **kwargs)]
    raises [TypeError] ("got multiple values for argument") when a key of
    [d] names one of the parameters. *)
Definition kw_collision (params : list string) (d : dict) : bool :=
  existsb (dict_mem d) params.

(** [tensorfield_symmetric_2d]; [t1], [t2] and [angle] are numpy arrays or
    [None]. *)
Definition tensorfield_symmetric_2d (lon lat : PyVal) (t1 t2 angle : option (list R))
    (x y : PyVal) (linewidth : R) (kwargs : dict) : M unit :=
  if coord_pairs_invalid lon lat x y
  then raise ValueError
  else
  match t1, t2, angle with
  | Some t1, Some t2, Some angle =>
      let color := t1 in
      match broadcast Rminus t1 t2 with
      | None => raise ValueError
      | Some width =>
          let u := fst (direction angle) in
          let v := snd (direction angle) in
          let kwdict := kwargs in
          (if dict_mem kwdict "color" then warn color_warning else ret tt) ;;;
          lw <- normalized_width linewidth width ;;
          let kwdict := dict_set kwdict "linewidth" (VArr lw) in
          let kwdict := dict_set kwdict "color" (VArr (map Fin color)) in
          if negb (is_none lon)
          then
            if kw_collision ["self"; "lon"; "lat"; "u"; "v"] kwargs
            then raise TypeError
            else streamplot lon lat (VArr u) (VArr v) kwargs
          else
            if kw_collision ["self"; "x"; "y"; "u"; "v"] kwdict
            then raise TypeError
            else streamplot_projected x y (VArr u) (VArr v) kwdict
      end
  | _, _, _ => raise ValueError
  end.

(** Two consecutive [imshow_projected] calls with an empty image. *)
Definition two_images (xl1 yl1 xl2 yl2 : loc) : M unit :=
  imshow_projected VNone xl1 yl1 [] ;;; imshow_projected VNone xl2 yl2 [].

(** ** Example states *)

(** A heap holding the given Python lists at addresses 0, 1, 2, ... *)
Definition heap_of (ls : list (list R)) : loc -> list R :=
  fun l => nth l ls [].

Definition example_state (path : option string) (ls : list (list R)) : state :=
  mkState path (VStr "lightblue") (VStr "white") [] false 1 [] [] (0, 0) false
    None None (heap_of ls) false [].

(** ** Basic lemmas *)

Lemma dict_get_set_same (d : dict) (k : string) (v : PyVal) :
  dict_get (dict_set d k v) k = Some v.
Proof.
  induction d as [| [k' v'] t IH]; simpl.
  - now rewrite String.eqb_refl.
  - destruct (String.eqb k k') eqn:E; simpl.
    + now rewrite String.eqb_refl.
    + now rewrite E.
Qed.

Lemma dict_get_set_other (d : dict) (k k' : string) (v : PyVal) :
  k' <> k -> dict_get (dict_set d k v) k' = dict_get d k'.
Proof.
  intro Hne.
  induction d as [| [k0 v0] t IH]; simpl.
  - destruct (String.eqb_spec k' k); [congruence | reflexivity].
  - destruct (String.eqb_spec k k0) as [E | E]; simpl.
    + subst k0. destruct (String.eqb_spec k' k); [congruence | reflexivity].
    + destruct (String.eqb k' k0); [reflexivity | exact IH].
Qed.



Lemma dict_get_merge_absent (a b : dict) (k : string) :
  ~ In k (map fst b) -> dict_get (dict_merge a b) k = dict_get a k.
Proof.
  revert a; induction b as [| [k0 v0] t IH]; intros a Hk; simpl in *.
  - reflexivity.
  - unfold dict_merge in *; simpl.
    rewrite IH by tauto.
    apply dict_get_set_other; intro E; apply Hk; left; symmetry; exact E.
Qed.

(** [{**a, **b}] holds each entry of [b] when [b]'s keys are unique. *)
Lemma dict_get_merge_right (a b : dict) (k : string) (v : PyVal) :
  NoDup (map fst b) -> dict_get b k = Some v -> dict_get (dict_merge a b) k = Some v.
Proof.
  revert a; induction b as [| [k0 v0] t IH]; intros a Hnd Hk; simpl in *.
  - discriminate.
  - inversion Hnd as [| ? ? Hnin Hnd']; subst.
    unfold dict_merge; simpl.
    destruct (String.eqb_spec k k0) as [E | E].
    + subst k0; injection Hk as Hv; subst v0.
      fold (dict_merge (dict_set a k v) t).
      rewrite dict_get_merge_absent by exact Hnin.
      apply dict_get_set_same.
    + apply IH; assumption.
Qed.

Lemma rlt_true (a b : R) : a < b -> rlt a b = true.
Proof. intro H. unfold rlt. destruct (Rlt_dec a b); [reflexivity | lra]. Qed.

Lemma rlt_false (a b : R) : ~ a < b -> rlt a b = false.
Proof. intro H. unfold rlt. destruct (Rlt_dec a b); [lra | reflexivity]. Qed.

Lemma with_heap_heap (st : state) : with_heap (heap st) st = st.
Proof. now destruct st. Qed.

Lemma with_heap_twice (h1 h2 : loc -> list R) (st : state) :
  with_heap h2 (with_heap h1 st) = with_heap h2 st.
Proof. now destruct st. Qed.

Lemma widen_spec (d lim : loc) (a0 a1 d0 d1 : R) (st : state) :
  d <> lim -> heap st lim = [a0; a1] -> heap st d = [d0; d1] ->
  exists h, widen d lim st = (Ok tt, with_heap h st) /\
    h d = [Rmin a0 d0; Rmax a1 d1] /\ (forall l, l <> d -> h l = heap st l).
Proof.
  intros Hne Hl Hd.
  assert (Hne' : Nat.eqb d lim = false) by (apply Nat.eqb_neq; exact Hne).
  unfold widen, getitem, setitem, bind, get, ret, modify, heap_upd, rlt.
  repeat (first [ progress (simpl; rewrite ?Hl, ?Hd, ?Hne', ?Nat.eqb_refl)
                | match goal with |- context [Rlt_dec ?a ?b] =>
                    destruct (Rlt_dec a b) end ]).
  all: rewrite ?with_heap_twice.
  4: exists (heap st); rewrite with_heap_heap.
  1-3: eexists.
  all: split; [reflexivity |]; split;
    [ simpl; rewrite ?Nat.eqb_refl, ?Hd; f_equal;
      [ first [rewrite Rmin_left by lra | rewrite Rmin_right by lra]; reflexivity
      | f_equal; first [rewrite Rmax_left by lra | rewrite Rmax_right by lra];
        reflexivity ]
    | intros l Hl0; simpl; destruct (Nat.eqb_spec d l); [congruence | reflexivity] ].
Qed.

Lemma imshow_fresh (z : PyVal) (xl yl : loc) (kw : dict) (st : state) :
  data_xlim st = None -> data_ylim st = None ->
  exists st', imshow_projected z xl yl kw st = (Ok tt, st') /\
    data_xlim st' = Some xl /\ data_ylim st' = Some yl /\ heap st' = heap st.
Proof.
  intros Hx Hy.
  unfold imshow_projected, bind, get, modify; simpl.
  rewrite Hx; simpl; rewrite Hy; simpl.
  eexists; split; [reflexivity | repeat split].
Qed.

(** With distinct list objects, [imshow_projected] widens the stored
    bounds to the min of the lower and the max of the upper bounds. *)
Lemma imshow_widen (z : PyVal) (xl yl dx dy : loc) (kw : dict) (st : state)
    (x0 x1 y0 y1 dx0 dx1 dy0 dy1 : R) :
  data_xlim st = Some dx -> data_ylim st = Some dy ->
  dx <> xl -> dy <> yl -> dx <> dy -> dx <> yl ->
  heap st xl = [x0; x1] -> heap st yl = [y0; y1] ->
  heap st dx = [dx0; dx1] -> heap st dy = [dy0; dy1] ->
  exists st', imshow_projected z xl yl kw st = (Ok tt, st') /\
    data_xlim st' = Some dx /\ data_ylim st' = Some dy /\
    heap st' dx = [Rmin x0 dx0; Rmax x1 dx1] /\
    heap st' dy = [Rmin y0 dy0; Rmax y1 dy1].
Proof.
  intros Hx Hy N1 N2 N3 N4 Hxl Hyl Hdx Hdy.
  destruct (widen_spec dx xl x0 x1 dx0 dx1 st N1 Hxl Hdx) as [h [E [Hh1 Hh2]]].
  assert (Hyl' : heap (with_heap h st) yl = [y0; y1])
    by (simpl; rewrite Hh2; auto).
  assert (Hdy' : heap (with_heap h st) dy = [dy0; dy1])
    by (simpl; rewrite Hh2; auto).
  destruct (widen_spec dy yl y0 y1 dy0 dy1 (with_heap h st) N2 Hyl' Hdy')
    as [h' [E' [Hh1' Hh2']]].
  unfold imshow_projected, bind at 1, get at 1; rewrite Hx.
  unfold bind at 1; rewrite E.
  unfold bind at 1, get at 1; simpl data_ylim; rewrite Hy.
  unfold bind at 1; rewrite E'.
  eexists; split; [reflexivity |].
  simpl; rewrite Hh2' by auto; simpl.
  repeat split; [assumption | assumption | exact Hh1 | exact Hh1'].
Qed.

Ltac rminmax :=
  repeat first [ rewrite Rmin_left by lra | rewrite Rmin_right by lra
               | rewrite Rmax_left by lra | rewrite Rmax_right by lra ].

(** The spec's example, with four distinct list objects: bounds
    [[0,10]]/[[0,5]] and then [[-5,3]]/[[2,8]] leave [[-5,10]]/[[0,8]]. *)
Lemma imshow_projected_example :
  let st := snd (two_images 0%nat 1%nat 2%nat 3%nat
                   (example_state None [[0; 10]; [0; 5]; [-5; 3]; [2; 8]])) in
  data_xlim st = Some 0%nat /\ data_ylim st = Some 1%nat /\
  heap st 0%nat = [-5; 10] /\ heap st 1%nat = [0; 8].
Proof.
  set (st0 := example_state None [[0; 10]; [0; 5]; [-5; 3]; [2; 8]]).
  destruct (imshow_fresh VNone 0%nat 1%nat [] st0 eq_refl eq_refl)
    as [st1 [E1 [Hx1 [Hy1 Hh1]]]].
  destruct (imshow_widen VNone 2%nat 3%nat 0%nat 1%nat [] st1
              (-5) 3 2 8 0 10 0 5 Hx1 Hy1)
    as [st2 [E2 [Hx2 [Hy2 [Hd1 Hd2]]]]];
    try (rewrite Hh1; reflexivity); try discriminate.
  unfold two_images, bind; rewrite E1, E2; simpl.
  rewrite Hd1, Hd2; rminmax.
  repeat split; assumption.
Qed.

Lemma imshow_unfold (z : PyVal) (xl yl dx dy : loc) (kw : dict)
    (st st1 st2 : state) :
  data_xlim st = Some dx -> widen dx xl st = (Ok tt, st1) ->
  data_ylim st1 = Some dy -> widen dy yl st1 = (Ok tt, st2) ->
  exists st3, imshow_projected z xl yl kw st = (Ok tt, st3) /\
    heap st3 = heap st2 /\ data_xlim st3 = data_xlim st2 /\
    data_ylim st3 = data_ylim st2.
Proof.
  intros Hx E Hy E'.
  unfold imshow_projected, bind, get; rewrite Hx, E, Hy, E'.
  eexists; split; [reflexivity |]; simpl; auto.
Qed.

(** C2 (failing input).  The first call stores the caller's list objects
    themselves as the running bounds.  When one list [r = [0,10]] is passed
    as both [xlim] and [ylim], a second call with [[-5,3]]/[[2,8]] lowers
    [r[0]] through [self._data_xlim], and the running y-bounds become
    [[-5,10]] instead of [[min(0,2), max(10,8)] = [0,10]]. *)
Lemma imshow_projected_shared_limits :
  let st := snd (two_images 0%nat 0%nat 1%nat 2%nat
                   (example_state None [[0; 10]; [-5; 3]; [2; 8]])) in
  data_xlim st = Some 0%nat /\ data_ylim st = Some 0%nat /\
  heap st 0%nat = [-5; 10] /\ heap st 0%nat <> [Rmin 0 2; Rmax 10 8].
Proof.
  set (st0 := example_state None [[0; 10]; [-5; 3]; [2; 8]]).
  destruct (imshow_fresh VNone 0%nat 0%nat [] st0 eq_refl eq_refl)
    as [st1 [E1 [Hx1 [Hy1 Hh1]]]].
  assert (L1 : heap st1 1%nat = [-5; 3]) by (rewrite Hh1; reflexivity).
  assert (L0 : heap st1 0%nat = [0; 10]) by (rewrite Hh1; reflexivity).
  destruct (widen_spec 0%nat 1%nat (-5) 3 0 10 st1 ltac:(discriminate) L1 L0)
    as [h [E [Hh Hh']]].
  assert (L2 : heap (with_heap h st1) 2%nat = [2; 8])
    by (simpl; rewrite Hh' by discriminate; rewrite Hh1; reflexivity).
  assert (L0' : heap (with_heap h st1) 0%nat = [-5; 10])
    by (simpl; rewrite Hh; rminmax; reflexivity).
  destruct (widen_spec 0%nat 2%nat 2 8 (-5) 10 (with_heap h st1)
              ltac:(discriminate) L2 L0')
    as [h2 [E' [Hh2 _]]].
  assert (T : two_images 0%nat 0%nat 1%nat 2%nat st0
              = imshow_projected VNone 1%nat 2%nat [] st1)
    by (unfold two_images, bind at 1; rewrite E1; reflexivity).
  destruct (imshow_unfold VNone 1%nat 2%nat 0%nat 0%nat [] st1 _ _ Hx1 E Hy1 E')
    as [st3 [E3 [Hh3 [Hx3 Hy3]]]].
  simpl; rewrite T, E3; simpl; rewrite Hh3, Hx3, Hy3; simpl.
  rewrite Hh2; rminmax.
  repeat split; try assumption; try reflexivity.
  intro Heq; injection Heq; intros; lra.
Qed.

(** ** Framing: what leaves the pending list and the log alone *)

(** [c] changes neither [self._scheduled] nor the log of effects, whether
    it returns or raises. *)
Definition frames_schedule {A} (c : M A) : Prop :=
  forall st, scheduled (snd (c st)) = scheduled st /\ log (snd (c st)) = log st.

(** [c] either raises without touching [self._scheduled] and the log, or
    appends exactly one action of kind [kind] with its executed flag
    [False] and then invokes the scheduling hook once, which sees the
    appended action. *)
Definition schedules_one_action (kind : string) (c : M unit) : Prop :=
  forall st,
    match c st with
    | (Ok _, st') =>
        exists payload,
          scheduled st' = scheduled st ++ [mkAction kind false payload] /\
          log st' = log st ++ [ECallback (scheduled st')]
    | (Exc _, st') => scheduled st' = scheduled st /\ log st' = log st
    end.

Create HintDb frame.

Lemma frames_ret {A} (a : A) : frames_schedule (ret a).
Proof. intro st; split; reflexivity. Qed.

Lemma frames_raise {A} (e : exn) : frames_schedule (A := A) (raise e).
Proof. intro st; split; reflexivity. Qed.

Lemma frames_get : frames_schedule get.
Proof. intro st; split; reflexivity. Qed.

Lemma frames_bind {A B} (c : M A) (k : A -> M B) :
  frames_schedule c -> (forall a, frames_schedule (k a)) ->
  frames_schedule (bind c k).
Proof.
  intros Hc Hk st; unfold bind.
  specialize (Hc st); destruct (c st) as [[a | e] st'] eqn:E; simpl in *.
  - destruct (Hk a st') as [H1 H2]; destruct Hc as [H3 H4].
    split; congruence.
  - exact Hc.
Qed.

Lemma frames_getitem (l : loc) (i : nat) : frames_schedule (getitem l i).
Proof.
  intro st; unfold getitem, bind, get; simpl.
  destruct (nth_error (heap st l) i); split; reflexivity.
Qed.

Lemma frames_setitem (l : loc) (i : nat) (v : R) : frames_schedule (setitem l i v).
Proof.
  intro st; unfold setitem, bind, get; simpl.
  destruct (Nat.ltb i (length (heap st l))); split; reflexivity.
Qed.

Lemma frames_with_data_lims (f : state -> option loc * option loc) :
  frames_schedule (modify (fun st => with_data_lims (fst (f st)) (snd (f st)) st)).
Proof. intro st; split; reflexivity. Qed.

Lemma frames_modify (f : state -> state) :
  (forall st, scheduled (f st) = scheduled st /\ log (f st) = log st) ->
  frames_schedule (modify f).
Proof. intros H st; exact (H st). Qed.

#[local] Hint Resolve frames_ret frames_raise frames_get frames_getitem
  frames_setitem : frame.

Ltac framed :=
  repeat (first [ apply frames_bind
                | match goal with |- forall _, _ => intro end
                | apply frames_modify; intro; split; reflexivity
                | match goal with |- frames_schedule (if ?b then _ else _) =>
                    destruct b end
                | match goal with |- frames_schedule (match ?o with _ => _ end) =>
                    destruct o end ]);
  auto with frame.

Lemma frames_widen (d lim : loc) : frames_schedule (widen d lim).
Proof. unfold widen; framed. Qed.

#[local] Hint Resolve frames_widen : frame.

Lemma schedules_then (kind : string) (c1 : M unit) (c2 : M unit) :
  frames_schedule c1 -> schedules_one_action kind c2 ->
  schedules_one_action kind (c1 ;;; c2).
Proof.
  intros H1 H2 st; unfold bind.
  specialize (H1 st); destruct (c1 st) as [[a | e] st1]; simpl in H1.
  - specialize (H2 st1); destruct (c2 st1) as [[b | e] st2].
    + destruct H2 as [p [Hs Hl]]; destruct H1 as [H1s H1l].
      exists p; split; [congruence |].
      rewrite Hl, H1l; reflexivity.
    + destruct H2, H1; split; congruence.
  - exact H1.
Qed.

Lemma schedules_get (kind : string) (f : state -> M unit) :
  (forall s, schedules_one_action kind (f s)) ->
  schedules_one_action kind (s <- get ;; f s).
Proof. intros H st; exact (H st st). Qed.

Lemma schedules_raise (kind : string) (e : exn) :
  schedules_one_action kind (raise e).
Proof. intro st; split; reflexivity. Qed.

Lemma schedules_base (kind : string) (payload : list PyVal) :
  schedules_one_action kind (schedule kind payload ;;; _schedule_callback).
Proof. intro st; exists payload; split; reflexivity. Qed.

(** ** Claims *)

(** C3: [tensorfield_symmetric_2d] raises [ValueError], before any change
    of the plot's state, when both coordinate pairs are given, when only
    one member of a pair is given, when neither pair is given, or when one
    of [t1], [t2] and [angle] is missing. *)
Theorem tensorfield_symmetric_2d_validation (lon lat x y : PyVal)
    (t1 t2 angle : option (list R)) (linewidth : R) (kwargs : dict) (st : state) :
  (is_none lon = false /\ is_none lat = false /\
   is_none x = false /\ is_none y = false)
  \/ is_none lon <> is_none lat \/ is_none x <> is_none y
  \/ (is_none lon = true /\ is_none lat = true /\
      is_none x = true /\ is_none y = true)
  \/ t1 = None \/ t2 = None \/ angle = None ->
  tensorfield_symmetric_2d lon lat t1 t2 angle x y linewidth kwargs st
  = (Exc ValueError, st).
Proof.
  intro H.
  unfold tensorfield_symmetric_2d, coord_pairs_invalid.
  destruct (is_none lon), (is_none lat), (is_none x), (is_none y);
    simpl; try reflexivity;
    (destruct H as [H | [H | [H | [H | [H | [H | H]]]]]];
     [ destruct H as [H1 [H2 [H3 H4]]]; discriminate
     | congruence | congruence
     | destruct H as [H1 [H2 [H3 H4]]]; discriminate
     | subst; reflexivity
     | subst; destruct t1; reflexivity
     | subst; destruct t1, t2; reflexivity ]).
Qed.

Lemma tensorfield_symmetric_2d_validation_witness :
  tensorfield_symmetric_2d (VNum 0) (VNum 0) (Some [2]) (Some [1]) (Some [0])
    (VNum 0) (VNum 0) 1 [] (example_state None [])
  = (Exc ValueError, example_state None []).
Proof.
  apply tensorfield_symmetric_2d_validation.
  left; repeat split.
Defined.

(** C4: [streamplot] raises [NotImplementedError] for every input and
    leaves the plot's state, its pending actions included, unchanged. *)
Theorem streamplot_not_implemented (lon lat u v : PyVal) (kwargs : dict)
    (st : state) :
  streamplot lon lat u v kwargs st = (Exc NotImplementedError, st).
Proof. reflexivity. Qed.

(** C5: without a coastline-data path, [coastline] raises [RuntimeError]
    whatever its other arguments, and appends no pending action. *)
Theorem coastline_requires_gshhg (level water_color_arg land_color_arg zorder : PyVal)
    (kwargs : dict) (st : state) :
  gshhg_path st = None ->
  coastline level water_color_arg land_color_arg zorder kwargs st
  = (Exc RuntimeError, st).
Proof.
  intro H; unfold coastline, bind, get; rewrite H; reflexivity.
Qed.

Lemma coastline_requires_gshhg_witness :
  coastline (VNum 1) VNone VNone (VNum 0) [] (example_state None [])
  = (Exc RuntimeError, example_state None []).
Proof. apply coastline_requires_gshhg. reflexivity. Defined.

(** C7: [scatter] appends exactly one pending action
    [["scatter", False, (lon, lat, kwargs)]] and then invokes the
    scheduling hook, which marks the plot dirty. *)
Theorem scatter_schedules (lon lat : PyVal) (kwargs : dict) (st : state) :
  exists st', scatter lon lat kwargs st = (Ok tt, st') /\
    scheduled st' = scheduled st ++ [mkAction "scatter" false [lon; lat; VDict kwargs]] /\
    log st' = log st ++ [ECallback (scheduled st')] /\
    dirty st' = true.
Proof. eexists; split; [reflexivity |]; repeat split. Qed.

(** C9: each scheduling method ([coastline], [scatter], [quiver],
    [streamplot_projected], [imshow_projected]) either raises without
    appending anything, or appends exactly one pending action of its kind
    with executed flag [False] and then invokes the scheduling hook once,
    after the append (the hook sees the appended action). *)
Theorem scheduling_methods_append_then_call_back
    (level water_color_arg land_color_arg zorder lon lat u v c x y z : PyVal)
    (xlim ylim : loc) (kwargs : dict) :
  schedules_one_action "coastline"
    (coastline level water_color_arg land_color_arg zorder kwargs) /\
  schedules_one_action "scatter" (scatter lon lat kwargs) /\
  schedules_one_action "quiver" (quiver lon lat u v c kwargs) /\
  schedules_one_action "streamplot" (streamplot_projected x y u v kwargs) /\
  schedules_one_action "imshow" (imshow_projected z xlim ylim kwargs).
Proof.
  refine (conj _ (conj _ (conj _ (conj _ _)))).
  - unfold coastline; apply schedules_get; intro s.
    destruct (gshhg_path s); [| apply schedules_raise].
    apply schedules_then; [framed |].
    apply schedules_then; [framed |].
    apply schedules_base.
  - apply schedules_base.
  - apply schedules_base.
  - apply schedules_base.
  - unfold imshow_projected.
    apply schedules_get; intro s.
    apply schedules_then; [framed |].
    apply schedules_get; intro s'.
    apply schedules_then; [framed |].
    apply schedules_base.
Qed.

(** C10: [coastline] overwrites the stored water colour only when
    [water_color] is not [None] (and the call gets past the data-path
    check), and likewise for the land colour; a [None] argument leaves the
    stored colour unchanged, whether the call returns or raises. *)
Theorem coastline_colors (level water_color_arg land_color_arg zorder : PyVal)
    (kwargs : dict) (st : state) :
  let st' := snd (coastline level water_color_arg land_color_arg zorder kwargs st) in
  water_color st' =
    (if is_none water_color_arg then water_color st
     else match gshhg_path st with
          | Some _ => water_color_arg
          | None => water_color st
          end) /\
  land_color st' =
    (if is_none land_color_arg then land_color st
     else match gshhg_path st with
          | Some _ => land_color_arg
          | None => land_color st
          end).
Proof.
  unfold coastline, bind, get, modify, schedule, _schedule_callback; simpl.
  destruct (gshhg_path st); destruct water_color_arg, land_color_arg;
    split; reflexivity.
Qed.

(** C8: [grid] replaces the stored grid configuration as a whole: the flag,
    the grid constant and the anchor are the call's arguments, the style
    options are the base options overlaid with the call's keyword options
    (so they do not depend on any earlier [grid] call), and when the call
    passes no [linewidth] the stored one is [0.5]. *)
Theorem grid_replaces_config (on : bool) (grid_constant_arg anchor_lon anchor_lat : R)
    (kwargs : dict) (st1 st2 : state) :
  NoDup (map fst kwargs) ->
  grid_kwargs_base st1 = grid_kwargs_base st2 ->
  let r1 := grid on grid_constant_arg anchor_lon anchor_lat kwargs st1 in
  let r2 := grid on grid_constant_arg anchor_lon anchor_lat kwargs st2 in
  fst r1 = Ok tt /\
  grid_on (snd r1) = on /\ grid_constant (snd r1) = grid_constant_arg /\
  grid_anchor (snd r1) = (anchor_lon, anchor_lat) /\
  grid_kwargs (snd r1) = grid_kwargs (snd r2) /\
  (forall k v, dict_get kwargs k = Some v -> dict_get (grid_kwargs (snd r1)) k = Some v) /\
  (dict_mem kwargs "linewidth" = false ->
   dict_get (grid_kwargs (snd r1)) "linewidth" = Some (VNum 0.5)).
Proof.
  intros Hnd Hbase r1 r2; subst r1 r2.
  unfold grid, bind, modify, _schedule_callback; simpl.
  rewrite Hbase.
  assert (Half : VNum (1 / 2) = VNum 0.5) by (f_equal; lra).
  repeat split.
  - intros k v Hk.
    destruct (dict_mem kwargs "linewidth") eqn:Hm; simpl.
    + apply dict_get_merge_right; assumption.
    + rewrite dict_get_set_other.
      * apply dict_get_merge_right; assumption.
      * intros ->; unfold dict_mem in Hm; rewrite Hk in Hm; discriminate.
  - intro Hm; rewrite Hm; simpl.
    rewrite dict_get_set_same; rewrite Half; reflexivity.
Qed.

Lemma grid_replaces_config_witness :
  let st1 := example_state None [] in
  let st2 := with_grid true 5 [("color", VStr "gray")] (1, 1) false st1 in
  NoDup (map fst [("alpha", VNum 0.3)]) /\
  dict_get (grid_kwargs (snd (grid false 2 0 0 [("alpha", VNum 0.3)] st2)))
    "linewidth" = Some (VNum 0.5).
Proof.
  intros st1 st2.
  assert (Hnd : NoDup (map fst [("alpha", VNum 0.3)]))
    by (constructor; [simpl; tauto | constructor]).
  split; [exact Hnd |].
  destruct (grid_replaces_config false 2 0 0 [("alpha", VNum 0.3)] st2 st1 Hnd
              eq_refl) as [_ [_ [_ [_ [_ [_ H]]]]]].
  apply H; reflexivity.
Defined.

(** ** [tensorfield_symmetric_2d] *)

Lemma direction_zero : direction [0] = ([Fin 0], [Fin 1]).
Proof.
  unfold direction, deg2rad; simpl.
  replace (0 * PI / 180) with 0 by lra.
  rewrite sin_0, cos_0; reflexivity.
Qed.

(** A single sample has [width.max() == width.min()], and the normalisation
    then divides [0] by [0]: the line width is NaN. *)
Lemma normalized_width_single (linewidth w : R) (st : state) :
  normalized_width linewidth [w] st = (Ok [NaN], st).
Proof.
  unfold normalized_width, amin, amax, bind, ret, fdiv; simpl.
  destruct (Req_EM_T (w - w) 0) as [_ | H]; [| lra].
  destruct (Req_EM_T (linewidth * (w - w)) 0) as [_ | H]; [reflexivity | nra].
Qed.

(** C1 (counterexample).  The spec's single-sample geodetic call does not
    succeed: it raises [NotImplementedError]. *)
Lemma tensorfield_single_sample_raises :
  fst (tensorfield_symmetric_2d (VArr [Fin 0]) (VArr [Fin 0])
         (Some [2]) (Some [1]) (Some [0]) VNone VNone 1 []
         (example_state None []))
  <> Ok tt.
Proof. simpl; discriminate. Qed.

(** C1 (amended): with [lon=[0]], [lat=[0]], [t1=[2]], [t2=[1]] and
    [angle=[0]] the call passes both validation checks, computes the
    direction [(u,v) = ([sin 0],[cos 0]) = ([0],[1])], and then raises
    [NotImplementedError] from [streamplot], to which the geodetic pair is
    delegated: nothing is scheduled and the plot's state is unchanged. *)
Theorem tensorfield_single_sample_geodetic (st : state) :
  coord_pairs_invalid (VArr [Fin 0]) (VArr [Fin 0]) VNone VNone = false /\
  direction [0] = ([Fin 0], [Fin 1]) /\
  tensorfield_symmetric_2d (VArr [Fin 0]) (VArr [Fin 0])
    (Some [2]) (Some [1]) (Some [0]) VNone VNone 1 [] st
  = (Exc NotImplementedError, st).
Proof.
  split; [reflexivity |]; split; [exact direction_zero |].
  reflexivity.
Qed.




(** ** Further properties of the module *)

(** The coordinate guard of [tensorfield_symmetric_2d] lets a call through
    exactly when the geodetic pair is complete and the projected pair is
    absent, or the other way round. *)
Theorem coord_pairs_valid_iff (lon lat x y : PyVal) :
  coord_pairs_invalid lon lat x y = false <->
  (is_none lon = false /\ is_none lat = false /\ is_none x = true /\ is_none y = true)
  \/ (is_none lon = true /\ is_none lat = true /\ is_none x = false /\ is_none y = false).
Proof.
  unfold coord_pairs_invalid.
  destruct (is_none lon), (is_none lat), (is_none x), (is_none y); simpl;
    intuition discriminate.
Qed.

(** numpy refuses to broadcast two one-dimensional arrays whose lengths
    differ when neither has length one. *)
Lemma broadcast_mismatch (f : R -> R -> R) (a b : list R) :
  length a <> length b -> length a <> 1%nat -> length b <> 1%nat ->
  broadcast f a b = None.
Proof.
  intros H1 H2 H3; unfold broadcast.
  destruct (Nat.eqb_spec (length a) (length b)); [contradiction |].
  destruct a as [| a0 [| a1 a]]; [| simpl in H2; congruence |];
    destruct b as [| b0 [| b1 b]]; simpl in *; try congruence; reflexivity.
Qed.

(** [t1 - t2] on one-dimensional arrays of incompatible lengths (different,
    neither 1) raises [ValueError] before any effect: no warning, nothing
    scheduled. *)
Theorem tensorfield_shape_mismatch (lon lat x y : PyVal) (t1 t2 angle : list R)
    (linewidth : R) (kwargs : dict) (st : state) :
  coord_pairs_invalid lon lat x y = false ->
  length t1 <> length t2 -> length t1 <> 1%nat -> length t2 <> 1%nat ->
  tensorfield_symmetric_2d lon lat (Some t1) (Some t2) (Some angle) x y
    linewidth kwargs st = (Exc ValueError, st).
Proof.
  intros Hc H1 H2 H3.
  unfold tensorfield_symmetric_2d; rewrite Hc.
  rewrite broadcast_mismatch by assumption; reflexivity.
Qed.

Lemma tensorfield_shape_mismatch_witness :
  tensorfield_symmetric_2d VNone VNone (Some [1; 2]) (Some [1; 2; 3]) (Some [0])
    (VArr [Fin 0]) (VArr [Fin 0]) 1 [] (example_state None [])
  = (Exc ValueError, example_state None []).
Proof.
  apply tensorfield_shape_mismatch; [reflexivity | simpl; discriminate ..].
Defined.



(** With a geodetic pair given ([lon] not [None]), [tensorfield_symmetric_2d]
    never returns and never schedules a pending action, whatever the other
    arguments. *)
Theorem tensorfield_geodetic_never_schedules (lon lat x y : PyVal)
    (t1 t2 angle : option (list R)) (linewidth : R) (kwargs : dict) (st : state) :
  is_none lon = false ->
  let r := tensorfield_symmetric_2d lon lat t1 t2 angle x y linewidth kwargs st in
  (exists e, fst r = Exc e) /\ scheduled (snd r) = scheduled st.
Proof.
  intros Hl r; subst r.
  unfold tensorfield_symmetric_2d.
  destruct (coord_pairs_invalid lon lat x y);
    [simpl; split; [eexists; reflexivity | reflexivity] |].
  destruct t1 as [t1 |], t2 as [t2 |], angle as [angle |];
    try (simpl; split; [eexists; reflexivity | reflexivity]).
  destruct (broadcast Rminus t1 t2) as [width |];
    [| simpl; split; [eexists; reflexivity | reflexivity]].
  unfold normalized_width, amin, amax, bind, warn, modify, ret, raise.
  rewrite Hl.
  destruct (kw_collision ["self"; "lon"; "lat"; "u"; "v"] kwargs), (dict_mem kwargs "color"),
    width; simpl;
    split; try (eexists; reflexivity); reflexivity.
Qed.

Lemma tensorfield_geodetic_never_schedules_witness :
  let r := tensorfield_symmetric_2d (VArr [Fin 0]) (VArr [Fin 0]) (Some [2])
             (Some [1]) (Some [0]) VNone VNone 1 [] (example_state None []) in
  (exists e, fst r = Exc e) /\ scheduled (snd r) = [].
Proof.
  exact (tensorfield_geodetic_never_schedules (VArr [Fin 0]) (VArr [Fin 0])
           VNone VNone (Some [2]) (Some [1]) (Some [0]) 1 []
           (example_state None []) eq_refl).
Defined.






(** When all widths are equal, every line width is [0/0], that is NaN. *)
Theorem normalized_width_constant (linewidth w : R) (n : nat) (st : state) :
  normalized_width linewidth (repeat w (S n)) st = (Ok (repeat NaN (S n)), st).
Proof.
  assert (Hmin : forall k, fold_left Rmin (repeat w k) w = w).
  { induction k; simpl; [reflexivity |]. rewrite Rmin_left by lra; exact IHk. }
  assert (Hmax : forall k, fold_left Rmax (repeat w k) w = w).
  { induction k; simpl; [reflexivity |]. rewrite Rmax_left by lra; exact IHk. }
  unfold normalized_width, amin, amax, bind, ret; simpl.
  rewrite Hmin, Hmax.
  f_equal; f_equal.
  replace (fdiv (linewidth * (w - w)) (w - w)) with NaN.
  - simpl; f_equal.
    rewrite map_repeat.
    replace (fdiv (linewidth * (w - w)) (w - w)) with NaN; [reflexivity |].
    unfold fdiv; destruct (Req_EM_T (w - w) 0); [| lra].
    destruct (Req_EM_T (linewidth * (w - w)) 0); [reflexivity | nra].
  - unfold fdiv; destruct (Req_EM_T (w - w) 0); [| lra].
    destruct (Req_EM_T (linewidth * (w - w)) 0); [reflexivity | nra].
Qed.

(** ** The running data bounds never narrow *)

(** [h'] is [h] with some lists' first element lowered and second element
    raised, everything else unchanged. *)
Definition widens (h h' : loc -> list R) : Prop :=
  forall l,
    length (h' l) = length (h l) /\
    (forall i, (2 <= i)%nat -> nth_error (h' l) i = nth_error (h l) i) /\
    (forall a a', nth_error (h l) 0 = Some a -> nth_error (h' l) 0 = Some a' -> a' <= a) /\
    (forall a a', nth_error (h l) 1 = Some a -> nth_error (h' l) 1 = Some a' -> a <= a').

Lemma widens_refl (h : loc -> list R) : widens h h.
Proof.
  intro l; repeat split; intros; try congruence.
  - assert (a = a') by congruence; lra.
  - assert (a = a') by congruence; lra.
Qed.

Lemma widens_trans (h1 h2 h3 : loc -> list R) :
  widens h1 h2 -> widens h2 h3 -> widens h1 h3.
Proof.
  intros W1 W2 l.
  destruct (W1 l) as [L1 [I1 [A1 B1]]], (W2 l) as [L2 [I2 [A2 B2]]].
  split; [congruence |]; split; [| split].
  - intros i Hi; rewrite I2, I1 by exact Hi; reflexivity.
  - intros a a' Ha Ha'.
    destruct (nth_error (h2 l) 0) as [m |] eqn:Hm.
    + apply Rle_trans with m; [exact (A2 m a' eq_refl Ha') | exact (A1 a m Ha eq_refl)].
    + apply nth_error_None in Hm.
      assert (length (h1 l) <= 0)%nat by lia.
      assert (nth_error (h1 l) 0 = None) by (apply nth_error_None; lia); congruence.
  - intros a a' Ha Ha'.
    destruct (nth_error (h2 l) 1) as [m |] eqn:Hm.
    + apply Rle_trans with m; [exact (B1 a m Ha eq_refl) | exact (B2 m a' eq_refl Ha')].
    + apply nth_error_None in Hm.
      assert (nth_error (h1 l) 1 = None) by (apply nth_error_None; lia); congruence.
Qed.

Lemma getitem_eq (l : loc) (i : nat) (st : state) :
  getitem l i st =
  match nth_error (heap st l) i with
  | Some r => (Ok r, st)
  | None => (Exc IndexError, st)
  end.
Proof. unfold getitem, bind, get; destruct (nth_error (heap st l) i); reflexivity. Qed.

Lemma nth_error_replace_nth (xs : list R) (i j : nat) (v : R) :
  nth_error (replace_nth xs i v) j =
  if Nat.eqb i j then match nth_error xs j with Some _ => Some v | None => None end
  else nth_error xs j.
Proof.
  revert i j; induction xs as [| x xs IH]; intros i j.
  - simpl; destruct (Nat.eqb i j), j; reflexivity.
  - destruct i as [| i], j as [| j]; simpl; try reflexivity.
    rewrite IH; reflexivity.
Qed.

Lemma length_replace_nth (xs : list R) (i : nat) (v : R) :
  length (replace_nth xs i v) = length xs.
Proof.
  revert i; induction xs as [| x xs IH]; intro i; [destruct i; reflexivity |].
  destruct i; simpl; [reflexivity | rewrite IH; reflexivity].
Qed.

(** Assigning [d[i] = v] with [i] in [{0,1}] widens the heap when [v] does
    not exceed the old [d[0]] (for [i = 0]) or does not fall below the old
    [d[1]] (for [i = 1]). *)
Lemma setitem_widens (d : loc) (i : nat) (v : R) (st : state) :
  (i = 0%nat /\ forall a, nth_error (heap st d) 0 = Some a -> v <= a) \/
  (i = 1%nat /\ forall a, nth_error (heap st d) 1 = Some a -> a <= v) ->
  widens (heap st) (heap (snd (setitem d i v st))).
Proof.
  intro Hv.
  unfold setitem, bind, get, modify, raise.
  destruct (Nat.ltb i (length (heap st d))) eqn:Hi; simpl; [| apply widens_refl].
  intro l; unfold heap_upd.
  destruct (Nat.eqb_spec d l) as [<- | Hne]; [| apply widens_refl].
  rewrite length_replace_nth; split; [reflexivity |].
  split; [| split].
  - intros j Hj; rewrite nth_error_replace_nth; destruct Hv as [[-> _] | [-> _]];
      destruct j as [| [| j]]; try lia; reflexivity.
  - intros a a' Ha Ha'; rewrite nth_error_replace_nth, Ha in Ha'.
    destruct Hv as [[-> Hv] | [-> _]]; simpl in Ha'.
    + injection Ha' as <-; exact (Hv a Ha).
    + injection Ha' as <-; lra.
  - intros a a' Ha Ha'; rewrite nth_error_replace_nth, Ha in Ha'.
    destruct Hv as [[-> _] | [-> Hv]]; simpl in Ha'.
    + injection Ha' as <-; lra.
    + injection Ha' as <-; exact (Hv a Ha).
Qed.

Lemma widens_bind {A B} (c : M A) (k : A -> M B) (st : state) :
  widens (heap st) (heap (snd (c st))) ->
  (forall a st', c st = (Ok a, st') -> widens (heap st') (heap (snd (k a st')))) ->
  widens (heap st) (heap (snd (bind c k st))).
Proof.
  intros H1 H2; unfold bind.
  destruct (c st) as [[a | e] st'] eqn:E; simpl in *; [| exact H1].
  exact (widens_trans _ _ _ H1 (H2 a st' eq_refl)).
Qed.

Lemma getitem_widens (l : loc) (i : nat) (st : state) :
  widens (heap st) (heap (snd (getitem l i st))).
Proof. rewrite getitem_eq; destruct (nth_error (heap st l) i); apply widens_refl. Qed.

Lemma getitem_ok (l : loc) (i : nat) (st st' : state) (a : R) :
  getitem l i st = (Ok a, st') -> st' = st /\ nth_error (heap st l) i = Some a.
Proof.
  rewrite getitem_eq; destruct (nth_error (heap st l) i); intro E;
    injection E; intros; subst; auto; discriminate.
Qed.

Lemma widen_widens (d lim : loc) (st : state) :
  widens (heap st) (heap (snd (widen d lim st))).
Proof.
  unfold widen.
  apply widens_bind; [apply getitem_widens |]; intros a0 st1 E1.
  destruct (getitem_ok _ _ _ _ _ E1) as [-> Ha0].
  apply widens_bind; [apply getitem_widens |]; intros d0 st2 E2.
  destruct (getitem_ok _ _ _ _ _ E2) as [-> Hd0].
  apply widens_bind.
  - unfold rlt; destruct (Rlt_dec a0 d0) as [L | L]; [| apply widens_refl].
    apply widens_bind; [apply getitem_widens |]; intros a st3 E3.
    destruct (getitem_ok _ _ _ _ _ E3) as [-> Ha].
    apply setitem_widens; left; split; [reflexivity |].
    intros b Hb; rewrite Hd0 in Hb; injection Hb as <-.
    rewrite Ha0 in Ha; injection Ha as <-; lra.
  - intros [] st3 _.
    apply widens_bind; [apply getitem_widens |]; intros a1 st4 E4.
    destruct (getitem_ok _ _ _ _ _ E4) as [-> Ha1].
    apply widens_bind; [apply getitem_widens |]; intros d1 st5 E5.
    destruct (getitem_ok _ _ _ _ _ E5) as [-> Hd1].
    unfold rlt; destruct (Rlt_dec d1 a1) as [L | L]; [| apply widens_refl].
    apply widens_bind; [apply getitem_widens |]; intros a st6 E6.
    destruct (getitem_ok _ _ _ _ _ E6) as [-> Ha].
    apply setitem_widens; right; split; [reflexivity |].
    intros b Hb; rewrite Hd1 in Hb; injection Hb as <-.
    rewrite Ha1 in Ha; injection Ha as <-; lra.
Qed.

(** [imshow_projected] never narrows any stored bounds, whatever aliasing
    there is between the caller's lists and the stored ones, and whether it
    returns or raises: it only lowers some lists' first element, raises some
    lists' second element, and changes nothing else in any list. *)
Theorem imshow_projected_never_narrows (z : PyVal) (xlim ylim : loc) (kwargs : dict)
    (st : state) :
  widens (heap st) (heap (snd (imshow_projected z xlim ylim kwargs st))).
Proof.
  unfold imshow_projected.
  apply widens_bind; [apply widens_refl |]; intros s st1 E1.
  injection E1 as -> ->.
  apply widens_bind.
  - match goal with |- context [match data_xlim ?s with _ => _ end] =>
      destruct (data_xlim s) end; [apply widen_widens | apply widens_refl].
  - intros [] st2 _.
    apply widens_bind; [apply widens_refl |]; intros s' st3 E3.
    injection E3 as -> ->.
    apply widens_bind.
    + match goal with |- context [match data_ylim ?s with _ => _ end] =>
        destruct (data_ylim s) end; [apply widen_widens | apply widens_refl].
    + intros [] st4 _; apply widens_refl.
Qed.

Lemma imshow_fresh_scheduled (z : PyVal) (xl yl : loc) (kw : dict) (st : state) :
  data_xlim st = None -> data_ylim st = None ->
  scheduled (snd (imshow_projected z xl yl kw st)) =
  scheduled st ++ [mkAction "imshow" false [z; VList xl; VList yl; VDict kw]].
Proof.
  intros Hx Hy.
  unfold imshow_projected, bind, get, modify; simpl.
  rewrite Hx; simpl; rewrite Hy; reflexivity.
Qed.

Lemma imshow_schedules (z : PyVal) (xl yl : loc) (kw : dict) :
  schedules_one_action "imshow" (imshow_projected z xl yl kw).
Proof.
  unfold imshow_projected.
  apply schedules_get; intro s.
  apply schedules_then; [framed |].
  apply schedules_get; intro s'.
  apply schedules_then; [framed |].
  apply schedules_base.
Qed.

(** The first [imshow_projected] call stores the caller's [xlim] and
    [ylim] lists themselves as the running bounds, and its pending action
    refers to the same lists.  A second call (with distinct lists) widens
    those lists in place, so the first pending image's extent becomes the
    union of both extents. *)
Theorem imshow_projected_first_extent_widened (z1 z2 : PyVal) (xl1 yl1 xl2 yl2 : loc)
    (kw1 kw2 : dict) (st : state) (x0 x1 y0 y1 u0 u1 v0 v1 : R) :
  data_xlim st = None -> data_ylim st = None ->
  xl1 <> yl1 -> xl1 <> xl2 -> yl1 <> yl2 -> xl1 <> yl2 ->
  heap st xl1 = [x0; x1] -> heap st yl1 = [y0; y1] ->
  heap st xl2 = [u0; u1] -> heap st yl2 = [v0; v1] ->
  let st2 := snd ((imshow_projected z1 xl1 yl1 kw1 ;;;
                   imshow_projected z2 xl2 yl2 kw2) st) in
  (exists rest, scheduled st2 =
     scheduled st ++ mkAction "imshow" false [z1; VList xl1; VList yl1; VDict kw1] :: rest) /\
  heap st2 xl1 = [Rmin u0 x0; Rmax u1 x1] /\ heap st2 yl1 = [Rmin v0 y0; Rmax v1 y1].
Proof.
  intros Hx Hy N1 N2 N3 N4 H1 H2 H3 H4 st2.
  destruct (imshow_fresh z1 xl1 yl1 kw1 st Hx Hy) as [st1 [E1 [Hx1 [Hy1 Hh1]]]].
  pose proof (imshow_fresh_scheduled z1 xl1 yl1 kw1 st Hx Hy) as S1.
  rewrite E1 in S1; simpl in S1.
  destruct (imshow_widen z2 xl2 yl2 xl1 yl1 kw2 st1 u0 u1 v0 v1 x0 x1 y0 y1
              Hx1 Hy1 N2 N3 N1 N4)
    as [st3 [E3 [_ [_ [Hd1 Hd2]]]]]; try (rewrite Hh1; assumption).
  pose proof (imshow_schedules z2 xl2 yl2 kw2 st1) as S3; rewrite E3 in S3.
  destruct S3 as [p [S3 _]].
  subst st2; unfold bind; rewrite E1, E3; simpl.
  split; [| split; assumption].
  exists [mkAction "imshow" false p].
  rewrite S3, S1, <- app_assoc; reflexivity.
Qed.

Lemma imshow_projected_first_extent_widened_witness :
  let st2 := snd ((imshow_projected VNone 0%nat 1%nat [] ;;;
                   imshow_projected VNone 2%nat 3%nat [])
                  (example_state None [[0; 10]; [0; 5]; [-5; 3]; [2; 8]])) in
  heap st2 0%nat = [Rmin (-5) 0; Rmax 3 10] /\ heap st2 1%nat = [Rmin 2 0; Rmax 8 5].
Proof.
  exact (proj2 (imshow_projected_first_extent_widened VNone VNone 0%nat 1%nat 2%nat 3%nat
           [] [] (example_state None [[0; 10]; [0; 5]; [-5; 3]; [2; 8]])
           0 10 0 5 (-5) 3 2 8 eq_refl eq_refl
           ltac:(discriminate) ltac:(discriminate) ltac:(discriminate) ltac:(discriminate)
           eq_refl eq_refl eq_refl eq_refl)).
Defined.

(** With coastline data loaded, [coastline] returns after appending exactly
    [["coastline", False, (level, zorder, kwargs)]] (the colours are stored
    on the plot, not in the action) and invoking the hook once. *)
Theorem coastline_payload (level water_color_arg land_color_arg zorder : PyVal)
    (kwargs : dict) (st : state) (path : string) :
  gshhg_path st = Some path ->
  let r := coastline level water_color_arg land_color_arg zorder kwargs st in
  fst r = Ok tt /\
  scheduled (snd r) = scheduled st ++ [mkAction "coastline" false [level; zorder; VDict kwargs]] /\
  log (snd r) = log st ++ [ECallback (scheduled (snd r))] /\ dirty (snd r) = true.
Proof.
  intros Hp r; subst r.
  unfold coastline, bind, get, modify, schedule, _schedule_callback; rewrite Hp.
  repeat split.
Qed.

Lemma coastline_payload_witness :
  scheduled (snd (coastline (VStr "h") VNone (VStr "green") (VNum 1) []
                    (example_state (Some "/data/gshhg") [])))
  = [mkAction "coastline" false [VStr "h"; VNum 1; VDict []]].
Proof.
  exact (proj1 (proj2 (coastline_payload (VStr "h") VNone (VStr "green") (VNum 1) []
           (example_state (Some "/data/gshhg") []) "/data/gshhg" eq_refl))).
Defined.

(** [grid] returns and changes only the grid configuration: it sets the
    flag, constant and anchor from its arguments (and the style options,
    see [grid_replaces_config]), flags the grid for update and invokes the
    hook once.  It never schedules a pending action and leaves the data
    path, the colours, the base style options, the data bounds and the
    stored lists as they were. *)
Theorem grid_schedules_nothing (on : bool) (grid_constant_arg anchor_lon anchor_lat : R)
    (kwargs : dict) (st : state) :
  let r := grid on grid_constant_arg anchor_lon anchor_lat kwargs st in
  let st' := snd r in
  fst r = Ok tt /\
  gshhg_path st' = gshhg_path st /\ water_color st' = water_color st /\
  land_color st' = land_color st /\ scheduled st' = scheduled st /\
  grid_kwargs_base st' = grid_kwargs_base st /\
  data_xlim st' = data_xlim st /\ data_ylim st' = data_ylim st /\
  heap st' = heap st /\
  grid_on st' = on /\ grid_constant st' = grid_constant_arg /\
  grid_anchor st' = (anchor_lon, anchor_lat) /\ update_grid st' = true /\
  log st' = log st ++ [ECallback (scheduled st)] /\ dirty st' = true.
Proof. repeat split. Qed.

(** With running bounds stored, a new [xlim] list of a single element
    makes [imshow_projected] raise [IndexError] at [xlim[1]]; nothing is
    scheduled, but the lower x-bound has already been lowered in place. *)
Theorem imshow_projected_short_xlim (z : PyVal) (xlim ylim d : loc) (kwargs : dict)
    (st : state) (a d0 d1 : R) :
  data_xlim st = Some d -> d <> xlim ->
  heap st xlim = [a] -> heap st d = [d0; d1] ->
  let r := imshow_projected z xlim ylim kwargs st in
  fst r = Exc IndexError /\ scheduled (snd r) = scheduled st /\
  log (snd r) = log st /\ heap (snd r) d = [Rmin a d0; d1].
Proof.
  intros Hx Hne Hl Hd r; subst r.
  assert (Hne' : Nat.eqb d xlim = false) by (apply Nat.eqb_neq; exact Hne).
  unfold imshow_projected, widen, getitem, setitem, bind, get, ret, modify, raise,
    heap_upd, rlt; simpl; rewrite Hx.
  repeat (first [ progress (simpl; rewrite ?Hl, ?Hd, ?Hne', ?Nat.eqb_refl)
                | match goal with |- context [Rlt_dec ?a ?b] =>
                    destruct (Rlt_dec a b) end ]).
  - repeat split; rewrite Rmin_left by lra; reflexivity.
  - repeat split; rewrite Rmin_right by lra; reflexivity.
Qed.

Lemma imshow_projected_short_xlim_witness :
  fst (imshow_projected VNone 1%nat 2%nat []
         (with_data_lims (Some 0%nat) (Some 3%nat)
            (example_state None [[0; 10]; [-5]; [2; 8]; [0; 5]])))
  = Exc IndexError.
Proof.
  exact (proj1 (imshow_projected_short_xlim VNone 1%nat 2%nat 0%nat []
           (with_data_lims (Some 0%nat) (Some 3%nat)
              (example_state None [[0; 10]; [-5]; [2; 8]; [0; 5]]))
           (-5) 0 10 eq_refl ltac:(discriminate) eq_refl eq_refl)).
Defined.
